(** * vmodem99-a: the build script [build.py]

    A shallow embedding of [build.py] (the dependency check, the command
    runner and the orchestration in [main]) together with the properties
    its specification states about it.

    Conventions of the embedding.
    - The host is an explicit environment [Env]: whether the shell that
      [shell=True] relies on can be started at all, what the shell does
      with each command line, and whether the program's buffered
      standard output can be flushed when the interpreter exits.
    - A child is a process that ran to completion; a captured stream is
      either text or a byte sequence that is not well-formed UTF-8, on
      which [bytes.decode()] raises.
    - Python exceptions are a result type [Res]; effects are threaded
      through a [World] that holds the entries of the working directory,
      whether that directory accepts new entries, and the log of what
      the program did (process creations, writes to its own streams,
      directory creations).
    - The working directory of the [World] records the entries the script
      itself finds and creates; what child processes do to the disk is
      not tracked.
    - [print] fills the buffer of standard output and does not fail; a
      standard output that cannot take the text shows at the final
      flush only. *)

From Stdlib Require Import ZArith Ascii String List Bool Lia.
From stdpp Require Import base option list gmap strings.

Local Open Scope string_scope.
Local Open Scope list_scope.

(** ** The host environment *)

(** A captured stream: the bytes the child wrote, as the text they
    decode to, or bytes on which [decode()] raises. *)
Inductive captured : Type :=
| Text (text : string)
| Undecodable.

Coercion Text : string >-> captured.

(** What the shell does with one command line, once the shell runs.
    A POSIX shell that cannot find the executable named on the command
    line writes a diagnostic on its standard error and exits with
    status 127; from Python's side this is an ordinary completed child. *)
Inductive child : Type :=
| CommandNotFound (diag : string)
| Ran (returncode : Z) (stdout stderr : captured).

Record Env : Type := mkEnv {
  shell_available : bool;
  sh : string → child;
  stdout_accepts : bool
}.

(** The triple [(process.returncode, stdout, stderr)] after
    [process.communicate()]. *)
Definition completed (c : child) : Z * captured * captured :=
  match c with
  | CommandNotFound diag => (127%Z, Text "", Text diag)
  | Ran returncode stdout stderr => (returncode, stdout, stderr)
  end.

(** ** Exceptions, the world and the effect monad *)

Inductive exn : Type :=
| OSError (command : string)
| FileExistsError (path : string)
| PermissionError (path : string)
| UnicodeDecodeError.

Inductive Res (A : Type) : Type :=
| Ok (a : A)
| Raise (e : exn).
Arguments Ok {A} a.
Arguments Raise {A} e.

(** An entry of the working directory: a directory, a regular file
    (or a link to one of these, which behaves as its target here), or a
    symbolic link whose target does not exist. *)
Inductive node : Type := Dir | File | DanglingLink.

Inductive stream : Type := Stdout | Stderr.

#[global] Instance stream_eq_dec : EqDecision stream.
Proof. solve_decision. Defined.

Inductive event : Type :=
| EvPopen (command : string)
| EvWrite (s : stream) (text : string)
| EvMakedirs (path : string).

(** [cwd_writable] tells whether [mkdir] of a new name in the working
    directory succeeds; when it does not, Python raises an [OSError],
    here the [PermissionError] of a directory without write
    permission. *)
Record World : Type := mkWorld {
  fs : gmap string node;
  cwd_writable : bool;
  log : list event
}.

Definition emits (es : list event) (w : World) : World :=
  {| fs := fs w; cwd_writable := cwd_writable w; log := log w ++ es |}.

Definition M (A : Type) : Type := World → Res A * World.

#[global] Instance M_ret : MRet M := λ A a w, (Ok a, w).

#[global] Instance M_bind : MBind M := λ A B f m w,
  match m w with
  | (Ok a, w') => f a w'
  | (Raise e, w') => (Raise e, w')
  end.

Definition raise {A : Type} (e : exn) : M A := λ w, (Raise e, w).

(** ** Primitives of the Python runtime used by the script *)

Definition newline : string := String "010"%char EmptyString.

(** [print(text)]: one write of the text and a newline on standard
    output. *)
Definition print (text : string) : M unit :=
  λ w, (Ok tt, emits [EvWrite Stdout (text +:+ newline)] w).

(** [print(a, b)]: the two arguments separated by one space. *)
Definition print2 (a b : string) : M unit := print (a +:+ " " +:+ b).

(** [sep.join(l)] *)
Fixpoint join (sep : string) (l : list string) : string :=
  match l with
  | [] => ""
  | x :: rest =>
      match rest with
      | [] => x
      | _ :: _ => x +:+ sep +:+ join sep rest
      end
  end.

(** [stream.decode()]: the text, or [UnicodeDecodeError]. *)
Definition decode (c : captured) : M string :=
  match c with
  | Text text => mret text
  | Undecodable => raise UnicodeDecodeError
  end.

(** [os.path.exists(path)] for a name in the working directory: links
    are followed, so it is false for a link whose target is missing. *)
Definition os_path_exists (path : string) : M bool :=
  λ w, (Ok match fs w !! path with
           | Some Dir | Some File => true
           | Some DanglingLink | None => false
           end, w).

(** [os.makedirs(path)] for a single-component relative path (the only
    use in the script): [exist_ok] is false, so [mkdir] on a name that
    is taken, by an entry of any kind, raises [FileExistsError], and on
    a free name it raises when the directory takes no new entry. *)
Definition os_makedirs (path : string) : M unit :=
  λ w, match fs w !! path with
       | Some _ => (Raise (FileExistsError path), w)
       | None =>
           if cwd_writable w
           then (Ok tt, {| fs := <[path := Dir]> (fs w);
                           cwd_writable := cwd_writable w;
                           log := log w ++ [EvMakedirs path] |})
           else (Raise (PermissionError path), w)
       end.

(** ** Reading the log *)

(** The texts written to one of the program's own streams. *)
Definition written (s : stream) (es : list event) : list string :=
  omap (λ e, match e with
             | EvWrite s' text => if decide (s' = s) then Some text else None
             | _ => None
             end) es.

(** The events a computation adds to the log of the world it starts in. *)
Definition added {A : Type} (m : M A) (w : World) : list event :=
  drop (length (log w)) (log (m w).2).

Section Script.

Variable env : Env.

(** What [subprocess.Popen(command, shell=True, stdout=PIPE, stderr=PIPE)]
    followed by waiting for the child yields: an [OSError] when the shell
    itself cannot be started, otherwise the completed child. *)
Definition spawn_result (command : string) : Res (Z * captured * captured) :=
  if shell_available env then Ok (completed (sh env command))
  else Raise (OSError command).

Definition Popen_communicate (command : string)
  : M (Z * captured * captured) :=
  λ w, (spawn_result command, emits [EvPopen command] w).

(** [subprocess.call(command, shell=True, ...)] returns the return code. *)
Definition subprocess_call (command : string) : M Z :=
  r ← Popen_communicate command;
  mret (r.1.1).

(** ** [run_command] *)

Definition run_command (command : string) : M unit :=
  r ← Popen_communicate command;
  let '(returncode, stdout, stderr) := r in
  if negb (returncode =? 0)%Z then
    print ("Error running command: " +:+ command);;
    text ← decode stderr;
    print text
  else
    text ← decode stdout;
    print text.

(** ** [checkDeps] *)

Definition dependencies : list string :=
  ["figlet"; "argc"; "wget"; "curl"; "telnet"; "ssh"; "mosh"; "bash"].

(** The [for dep in dependencies] loop; [missing_deps] is the list being
    appended to. *)
Fixpoint for_dep (deps : list string) (missing_deps : list string)
  : M (list string) :=
  match deps with
  | [] => mret missing_deps
  | dep :: rest =>
      rc ← subprocess_call ("which " +:+ dep);
      if negb (rc =? 0)%Z then for_dep rest (missing_deps ++ [dep])
      else for_dep rest missing_deps
  end.

(** The body of [checkDeps] over a given list of names. *)
Definition checkDeps_on (deps : list string) : M bool :=
  missing_deps ← for_dep deps [];
  match missing_deps with
  | _ :: _ =>
      print2 "Missing dependencies:" (join ", " missing_deps);;
      mret false
  | [] => mret true
  end.

Definition checkDeps : M bool := checkDeps_on dependencies.

(** ** [main] *)

Definition output_dir : string := "dist".
Definition echo_command : string := "echo 'Compiling source code...'".
Definition build_command : string := "argc --argc-build Main.sh dist/vmodem99-a".

(** Lines 41-42 of [main]: the directory-ensure step. *)
Definition ensure_output_dir : M unit :=
  present ← os_path_exists output_dir;
  if negb present then os_makedirs output_dir else mret tt.

Definition main : M unit :=
  ok ← checkDeps;
  if negb ok then
    print "Please install the missing dependencies and try again.";;
    mret tt
  else
    print "All dependencies are satisfied.";;
    print "Building the project...";;
    run_command echo_command;;
    ensure_output_dir;;
    run_command build_command;;
    print "Build completed successfully.".

(** [if __name__ == "__main__": main()]: the interpreter exits with
    status 0 when [main] returns and 1 when an exception escapes it,
    unless text was printed and the final flush of standard output
    fails, which makes the status 120. *)
Definition script (w : World) : Z * World :=
  let '(r, w') := main w in
  (match written Stdout (added main w) with
   | _ :: _ =>
       if stdout_accepts env
       then match r with Ok _ => 0%Z | Raise _ => 1%Z end
       else 120%Z
   | [] => match r with Ok _ => 0%Z | Raise _ => 1%Z end
   end, w').

End Script.

(** ** Vocabulary of the specification *)

(** The command line of the probe for one tool name: [f"which {dep}"]. *)
Definition probe_command (dep : string) : string := "which " +:+ dep.

(** The status that [subprocess.call] hands back for the probe of [dep]. *)
Definition probe_status (env : Env) (dep : string) : Res Z :=
  match spawn_result env (probe_command dep) with
  | Ok r => Ok (r.1.1)
  | Raise e => Raise e
  end.

(** A name is resolvable when its probe returns status zero, and
    unresolvable (missing) when its probe returns a non-zero status. *)
Definition resolvable (env : Env) (dep : string) : Prop :=
  match probe_status env dep with
  | Ok rc => rc = 0%Z
  | Raise _ => False
  end.

Definition unresolvable (env : Env) (dep : string) : Prop :=
  match probe_status env dep with
  | Ok rc => rc ≠ 0%Z
  | Raise _ => False
  end.

#[global] Instance resolvable_dec env dep : Decision (resolvable env dep).
Proof. unfold resolvable. destruct (probe_status env dep); apply _. Defined.

#[global] Instance unresolvable_dec env dep : Decision (unresolvable env dep).
Proof. unfold unresolvable. destruct (probe_status env dep); apply _. Defined.

(** One line on standard output, as [print] writes it. *)
Definition line (text : string) : event := EvWrite Stdout (text +:+ newline).

(** The stream [run_command] decodes and prints: standard error of a
    child that failed, standard output of one that succeeded. *)
Definition printed (r : Z * captured * captured) : captured :=
  let '(returncode, stdout, stderr) := r in
  if negb (returncode =? 0)%Z then stderr else stdout.

Definition well_formed (c : captured) : Prop := c ≠ Undecodable.

(** The line [run_command] prints for a stream, if it decodes. *)
Definition shown (c : captured) : list event :=
  match c with
  | Text text => [line text]
  | Undecodable => []
  end.

(** What [run_command] writes once the child has completed, up to the
    point where it returns or [decode] raises. *)
Definition report (command : string) (r : Z * captured * captured)
  : list event :=
  let '(returncode, stdout, stderr) := r in
  if negb (returncode =? 0)%Z
  then line ("Error running command: " +:+ command) :: shown stderr
  else shown stdout.

(** How [run_command] ends once the child has completed. *)
Definition outcome (r : Z * captured * captured) : Res unit :=
  match printed r with
  | Text _ => Ok tt
  | Undecodable => Raise UnicodeDecodeError
  end.

(** The two shapes a report of [run_command] can have. *)
Definition reports_success (es : list event) : Prop :=
  ∃ out, es = [line out].

Definition reports_failure (command : string) (es : list event) : Prop :=
  ∃ err, es = [line ("Error running command: " +:+ command); line err].

(** The line [checkDeps] prints for a non-empty list of missing names. *)
Definition missing_line (missing : list string) : event :=
  line ("Missing dependencies: " +:+ join ", " missing).

Definition checkDeps_report (missing : list string) : list event :=
  match missing with
  | [] => []
  | _ :: _ => [missing_line missing]
  end.

Definition probes (deps : list string) : list event :=
  map (λ dep, EvPopen (probe_command dep)) deps.

Definition is_makedirs (e : event) : bool :=
  match e with EvMakedirs _ => true | _ => false end.

Definition is_popen_of (command : string) (e : event) : bool :=
  match e with EvPopen c => String.eqb c command | _ => false end.

(** The command lines of the processes created, in order. *)
Definition popens (es : list event) : list string :=
  omap (λ e, match e with EvPopen c => Some c | _ => None end) es.

(** The text that reaches standard output: the writes, one after the
    other. *)
Definition stdout_text (es : list event) : string :=
  foldr String.append "" (written Stdout es).

(** Every event a computation logs satisfies [P], from every world and
    whether it returns or raises. *)
Definition logs_only (P : event → Prop) {A : Type} (m : M A) : Prop :=
  ∀ w, ∃ es, log (m w).2 = log w ++ es ∧ Forall P es.

Definition not_on_stderr (e : event) : Prop :=
  match e with EvWrite Stderr _ => False | _ => True end.

(** ** The directory-ensure step *)

(** The states in which the directory-ensure step returns: [dist] is a
    directory or a regular file, or it is absent and the working
    directory accepts a new entry. *)
Definition ensurable (w : World) : Prop :=
  fs w !! output_dir = Some Dir ∨
  fs w !! output_dir = Some File ∨
  (fs w !! output_dir = None ∧ cwd_writable w = true).

(** What the directory-ensure step does to the working directory and
    what it logs, when it returns. *)
Definition ensure_fs (f : gmap string node) : gmap string node :=
  match f !! output_dir with
  | Some _ => f
  | None => <[output_dir := Dir]> f
  end.

Definition ensure_events (f : gmap string node) : list event :=
  match f !! output_dir with
  | Some _ => []
  | None => [EvMakedirs output_dir]
  end.

(** The exception of the directory-ensure step in the states where it
    does not return. *)
Definition ensure_error (w : World) : exn :=
  match fs w !! output_dir with
  | Some _ => FileExistsError output_dir
  | None => PermissionError output_dir
  end.

(** Everything [main] logs up to and including the echo step, on a host
    where it gets that far. *)
Definition through_echo (env : Env) : list event :=
  probes dependencies ++
  [line "All dependencies are satisfied."; line "Building the project...";
   EvPopen echo_command] ++
  report echo_command (completed (sh env echo_command)).

(** Everything [main] logs before it creates the build process, on a
    host where it gets that far. *)
Definition before_build (env : Env) (f : gmap string node) : list event :=
  probes dependencies ++
  [line "All dependencies are satisfied."; line "Building the project...";
   EvPopen echo_command] ++
  report echo_command (completed (sh env echo_command)) ++
  ensure_events f.

Definition success_line : event := line "Build completed successfully.".

Definition remediation_line : event :=
  line "Please install the missing dependencies and try again.".

(** ** Sample hosts and working directories *)

(** A host with a working shell on which every probe succeeds except
    those of the names in [missing], and on which the build step behaves
    as [build]. *)
Definition host (missing : list string) (build : child) : Env :=
  {| shell_available := true;
     sh := λ command,
       if existsb (λ dep, String.eqb command (probe_command dep)) missing
       then Ran 1 "" ""
       else if String.eqb command build_command then build
       else if String.eqb command echo_command
            then Ran 0 ("Compiling source code..." +:+ newline) ""
            else Ran 0 "" "";
     stdout_accepts := true |}.

Definition no_shell : Env :=
  {| shell_available := false; sh := λ _, Ran 0 "" "";
     stdout_accepts := true |}.

Definition empty_world : World :=
  {| fs := ∅; cwd_writable := true; log := [] |}.

(** The host [env] with the behaviour of the build step replaced. *)
Definition with_build (env : Env) (build : child) : Env :=
  {| shell_available := shell_available env;
     sh := λ command,
       if String.eqb command build_command then build else sh env command;
     stdout_accepts := stdout_accepts env |}.

(** A host on which [nosuchtool] is not installed, and one on which it is
    installed, complains the same way and exits with status 127. *)
Definition not_found_diag : string := "/bin/sh: 1: nosuchtool: not found".

Definition host_without_tool : Env :=
  {| shell_available := true; sh := λ _, CommandNotFound not_found_diag;
     stdout_accepts := true |}.

Definition host_with_failing_tool : Env :=
  {| shell_available := true; sh := λ _, Ran 127 "" not_found_diag;
     stdout_accepts := true |}.

(** A host with a working shell on which [which] itself is not
    installed. *)
Definition host_without_which : Env :=
  {| shell_available := true;
     sh := λ command, CommandNotFound "/bin/sh: 1: which: not found";
     stdout_accepts := true |}.

(** A host on which every command exits with status zero after writing
    bytes that are not UTF-8 on its standard output. *)
Definition host_with_raw_output : Env :=
  {| shell_available := true; sh := λ _, Ran 0 Undecodable "";
     stdout_accepts := true |}.

(** A working directory in which [dist] is a regular file. *)
Definition world_with_dist_file : World :=
  {| fs := {[ "dist" := File ]}; cwd_writable := true; log := [] |}.

(** A working directory in which [dist] is already a directory. *)
Definition world_with_dist_dir : World :=
  {| fs := {[ "dist" := Dir ]}; cwd_writable := true; log := [] |}.

(** A working directory in which [dist] is a link to nothing. *)
Definition world_with_dangling_dist : World :=
  {| fs := {[ "dist" := DanglingLink ]}; cwd_writable := true; log := [] |}.

(** An empty working directory that takes no new entry. *)
Definition read_only_world : World :=
  {| fs := ∅; cwd_writable := false; log := [] |}.

(** ** Statements of the specification that are tested against the code *)

(** The exit-status rule of the specification: non-zero exactly when a
    dependency is missing. *)
Definition exit_status_tells_missing (env : Env) (w : World) : Prop :=
  (Exists (unresolvable env) dependencies → (script env w).1 ≠ 0%Z) ∧
  (¬ Exists (unresolvable env) dependencies → (script env w).1 = 0%Z).

(** The checker writes nothing on the program's own streams. *)
Definition silent (es : list event) : Prop :=
  written Stdout es = [] ∧ written Stderr es = [].

(** Two runs of the directory-ensure step in succession succeed and
    leave a directory at the output path. *)
Definition leaves_output_directory (w : World) : Prop :=
  ∃ w', (ensure_output_dir ;; ensure_output_dir) w = (Ok tt, w') ∧
        fs w' !! output_dir = Some Dir.

(** The last thing [main] does is print the success line. *)
Definition ends_with_success (env : Env) (w : World) : Prop :=
  last (added (main env) w) = Some success_line.

(** [run_command] returns after a report of one of the two shapes. *)
Definition surfaces_report (env : Env) (command : string) (w : World)
  : Prop :=
  ∃ es, run_command env command w =
          (Ok tt, emits (EvPopen command :: es) w) ∧
        (reports_success es ∨ reports_failure command es).

(** [main] ends the same way whichever of two builds it runs. *)
Definition build_blind (env : Env) (w : World) (build1 build2 : child)
  : Prop :=
  (main (with_build env build1) w).1 = (main (with_build env build2) w).1.

(** ** Sample runs *)

Example main_on_complete_host :
  main (host [] (Ran 0 "" "")) empty_world =
  (Ok tt,
   {| fs := {[ "dist" := Dir ]};
      cwd_writable := true;
      log := probes dependencies ++
             [line "All dependencies are satisfied.";
              line "Building the project...";
              EvPopen echo_command;
              line ("Compiling source code..." +:+ newline);
              EvMakedirs "dist";
              EvPopen build_command;
              line "";
              line "Build completed successfully."] |}).
Proof. reflexivity. Qed.

Example main_on_failing_build :
  log (main (host [] (Ran 2 "" "boom")) empty_world).2 =
  probes dependencies ++
  [line "All dependencies are satisfied.";
   line "Building the project...";
   EvPopen echo_command;
   line ("Compiling source code..." +:+ newline);
   EvMakedirs "dist";
   EvPopen build_command;
   line "Error running command: argc --argc-build Main.sh dist/vmodem99-a";
   line "boom";
   line "Build completed successfully."].
Proof. reflexivity. Qed.

Example main_on_host_without_two_tools :
  main (host ["argc"; "mosh"] (Ran 0 "" "")) empty_world =
  (Ok tt,
   {| fs := ∅;
      cwd_writable := true;
      log := probes dependencies ++
             [line "Missing dependencies: argc, mosh";
              line "Please install the missing dependencies and try again."] |}).
Proof. reflexivity. Qed.

Example main_without_shell :
  main no_shell empty_world =
  (Raise (OSError "which figlet"),
   {| fs := ∅; cwd_writable := true; log := [EvPopen "which figlet"] |}).
Proof. reflexivity. Qed.

Example main_on_raw_build_output :
  main (host [] (Ran 2 "" Undecodable)) empty_world =
  (Raise UnicodeDecodeError,
   {| fs := {[ "dist" := Dir ]};
      cwd_writable := true;
      log := probes dependencies ++
             [line "All dependencies are satisfied.";
              line "Building the project...";
              EvPopen echo_command;
              line ("Compiling source code..." +:+ newline);
              EvMakedirs "dist";
              EvPopen build_command;
              line "Error running command: argc --argc-build Main.sh dist/vmodem99-a"] |}).
Proof. reflexivity. Qed.

Example main_in_read_only_directory :
  main (host [] (Ran 0 "" "")) read_only_world =
  (Raise (PermissionError "dist"),
   {| fs := ∅;
      cwd_writable := false;
      log := probes dependencies ++
             [line "All dependencies are satisfied.";
              line "Building the project...";
              EvPopen echo_command;
              line ("Compiling source code..." +:+ newline)] |}).
Proof. reflexivity. Qed.

Example script_status_with_broken_stdout :
  (script (mkEnv true (sh (host ["wget"] (Ran 0 "" ""))) false) empty_world).1
  = 120%Z.
Proof. reflexivity. Qed.

(** ** Equations of the primitives *)

Lemma emits_nil w : emits [] w = w.
Proof. destruct w as [f c l]. unfold emits; simpl. by rewrite app_nil_r. Qed.

Lemma emits_emits es1 es2 w : emits es2 (emits es1 w) = emits (es1 ++ es2) w.
Proof. unfold emits; simpl. by rewrite app_assoc. Qed.

Lemma log_emits es w : log (emits es w) = log w ++ es.
Proof. reflexivity. Qed.

Lemma bind_ok {A B} (m : M A) (k : A → M B) w a w' :
  m w = (Ok a, w') → (m ≫= k) w = k a w'.
Proof. intros E. unfold mbind, M_bind. by rewrite E. Qed.

Lemma bind_raise {A B} (m : M A) (k : A → M B) w e w' :
  m w = (Raise e, w') → (m ≫= k) w = (Raise e, w').
Proof. intros E. unfold mbind, M_bind. by rewrite E. Qed.

Lemma print_eq text w : print text w = (Ok tt, emits [line text] w).
Proof. reflexivity. Qed.

Lemma outcome_well_formed r : well_formed (printed r) → outcome r = Ok tt.
Proof. unfold outcome, well_formed. by destruct (printed r). Qed.

Lemma outcome_undecodable r :
  printed r = Undecodable → outcome r = Raise UnicodeDecodeError.
Proof. unfold outcome. by intros ->. Qed.

Section Equations.

Variable env : Env.

Lemma spawn_result_shell command :
  shell_available env = true →
  spawn_result env command = Ok (completed (sh env command)).
Proof. intros Hsh. unfold spawn_result. by rewrite Hsh. Qed.

Lemma spawn_result_no_shell command :
  shell_available env = false →
  spawn_result env command = Raise (OSError command).
Proof. intros Hsh. unfold spawn_result. by rewrite Hsh. Qed.

Lemma subprocess_call_eq command r w :
  spawn_result env command = Ok r →
  subprocess_call env command w = (Ok (r.1.1), emits [EvPopen command] w).
Proof.
  intros E. unfold subprocess_call.
  erewrite bind_ok; [reflexivity|]. unfold Popen_communicate. by rewrite E.
Qed.

Lemma subprocess_call_no_shell command w :
  shell_available env = false →
  subprocess_call env command w =
  (Raise (OSError command), emits [EvPopen command] w).
Proof.
  intros Hsh. unfold subprocess_call.
  erewrite bind_raise; [reflexivity|].
  unfold Popen_communicate. by rewrite spawn_result_no_shell.
Qed.

(** [run_command] once the child has completed: it writes [report] and
    ends as [outcome] says. *)
Lemma run_command_eq command r w :
  spawn_result env command = Ok r →
  run_command env command w =
  (outcome r, emits (EvPopen command :: report command r) w).
Proof.
  intros E. unfold run_command.
  erewrite bind_ok; [|unfold Popen_communicate; by rewrite E].
  destruct r as [[returncode stdout] stderr]. unfold report, outcome, printed.
  destruct (negb (returncode =? 0)%Z).
  - erewrite bind_ok; [|apply print_eq].
    destruct stderr as [text|]; cbn [decode shown].
    + erewrite bind_ok; [|reflexivity].
      rewrite print_eq, !emits_emits. reflexivity.
    + erewrite bind_raise; [|reflexivity].
      rewrite emits_emits. reflexivity.
  - destruct stdout as [text|]; cbn [decode shown].
    + erewrite bind_ok; [|reflexivity].
      rewrite print_eq, emits_emits. reflexivity.
    + erewrite bind_raise; [|reflexivity]. reflexivity.
Qed.

Lemma run_command_no_shell command w :
  shell_available env = false →
  run_command env command w =
  (Raise (OSError command), emits [EvPopen command] w).
Proof.
  intros Hsh. unfold run_command.
  erewrite bind_raise; [reflexivity|].
  unfold Popen_communicate. by rewrite spawn_result_no_shell.
Qed.

Lemma unresolvable_shell dep :
  shell_available env = true →
  unresolvable env dep ↔ (completed (sh env (probe_command dep))).1.1 ≠ 0%Z.
Proof.
  intros Hsh. unfold unresolvable, probe_status.
  by rewrite spawn_result_shell.
Qed.

Lemma resolvable_shell dep :
  shell_available env = true →
  resolvable env dep ↔ (completed (sh env (probe_command dep))).1.1 = 0%Z.
Proof.
  intros Hsh. unfold resolvable, probe_status.
  by rewrite spawn_result_shell.
Qed.

Lemma unresolvable_has_shell dep :
  unresolvable env dep → shell_available env = true.
Proof.
  unfold unresolvable, probe_status, spawn_result.
  by destruct (shell_available env).
Qed.

Lemma resolvable_has_shell dep :
  resolvable env dep → shell_available env = true.
Proof.
  unfold resolvable, probe_status, spawn_result.
  by destruct (shell_available env).
Qed.

(** Once the shell starts, every name is either resolvable or
    unresolvable. *)
Lemma not_unresolvable_shell dep :
  shell_available env = true → ¬ unresolvable env dep ↔ resolvable env dep.
Proof.
  intros Hsh. rewrite unresolvable_shell, resolvable_shell by done.
  destruct (decide ((completed (sh env (probe_command dep))).1.1 = 0%Z));
    naive_solver.
Qed.

(** The loop appends, in order, the names whose probe fails, and issues
    one probe per name, in order. *)
Lemma for_dep_eq deps : ∀ missing_deps w,
  shell_available env = true →
  for_dep env deps missing_deps w =
  (Ok (missing_deps ++ filter (unresolvable env) deps),
   emits (probes deps) w).
Proof.
  induction deps as [|dep rest IH]; intros acc w Hsh.
  - simpl. unfold mret, M_ret. by rewrite app_nil_r, emits_nil.
  - cbn [for_dep].
    erewrite bind_ok;
      [|apply subprocess_call_eq, spawn_result_shell, Hsh].
    pose proof (unresolvable_shell dep Hsh) as Hun.
    change ("which " +:+ dep) with (probe_command dep).
    destruct ((completed (sh env (probe_command dep))).1.1 =? 0)%Z eqn:E;
      cbn [negb]; rewrite IH, emits_emits by done.
    + apply Z.eqb_eq in E.
      rewrite filter_cons_False by (rewrite Hun; tauto). reflexivity.
    + apply Z.eqb_neq in E.
      rewrite filter_cons_True by (by rewrite Hun).
      by rewrite <- app_assoc.
Qed.

Lemma checkDeps_on_eq deps w :
  shell_available env = true →
  checkDeps_on env deps w =
  (Ok (bool_decide (filter (unresolvable env) deps = [])),
   emits (probes deps ++ checkDeps_report (filter (unresolvable env) deps)) w).
Proof.
  intros Hsh. unfold checkDeps_on.
  erewrite bind_ok; [|by apply for_dep_eq].
  rewrite app_nil_l.
  destruct (filter (unresolvable env) deps) as [|m ms] eqn:E.
  - unfold mret, M_ret. cbn [checkDeps_report]. by rewrite app_nil_r.
  - erewrite bind_ok; [|apply print_eq].
    unfold mret, M_ret. rewrite emits_emits. reflexivity.
Qed.

(** Without a shell the checker does not return: the first probe lets
    the [OSError] escape. *)
Lemma checkDeps_on_no_shell dep rest w :
  shell_available env = false →
  checkDeps_on env (dep :: rest) w =
  (Raise (OSError ("which " +:+ dep)), emits [EvPopen ("which " +:+ dep)] w).
Proof.
  intros Hsh. unfold checkDeps_on.
  erewrite bind_raise; [reflexivity|]. cbn [for_dep].
  erewrite bind_raise; [reflexivity|].
  by apply subprocess_call_no_shell.
Qed.

(** The directory-ensure step, by what sits at [dist]. *)
Lemma ensure_output_dir_eq w :
  ensure_output_dir w =
  match fs w !! output_dir with
  | Some Dir | Some File => (Ok tt, w)
  | Some DanglingLink => (Raise (FileExistsError output_dir), w)
  | None =>
      if cwd_writable w
      then (Ok tt, {| fs := <[output_dir := Dir]> (fs w);
                      cwd_writable := cwd_writable w;
                      log := log w ++ [EvMakedirs output_dir] |})
      else (Raise (PermissionError output_dir), w)
  end.
Proof.
  unfold ensure_output_dir, mbind, M_bind, os_path_exists, os_makedirs.
  destruct (fs w !! output_dir) as [[| |]|] eqn:E; cbn [negb];
    try reflexivity; by rewrite E.
Qed.

End Equations.

(** ** Equations of [main] *)

Section MainEquations.

Variable env : Env.

Lemma resolvable_not_unresolvable dep :
  resolvable env dep → ¬ unresolvable env dep.
Proof.
  unfold resolvable, unresolvable.
  destruct (probe_status env dep); [congruence | tauto].
Qed.

Lemma all_resolvable_none_missing deps :
  Forall (resolvable env) deps → filter (unresolvable env) deps = [].
Proof.
  induction 1 as [|dep rest Hdep _ IH]; [reflexivity|].
  rewrite filter_cons_False by by apply resolvable_not_unresolvable.
  exact IH.
Qed.

Lemma some_unresolvable_missing deps :
  Exists (unresolvable env) deps → filter (unresolvable env) deps ≠ [].
Proof.
  induction 1 as [dep rest Hdep | dep rest _ IH].
  - by rewrite filter_cons_True.
  - destruct (decide (unresolvable env dep)).
    + by rewrite filter_cons_True.
    + by rewrite filter_cons_False.
Qed.

Lemma exists_unresolvable_has_shell deps :
  Exists (unresolvable env) deps → shell_available env = true.
Proof. induction 1; eauto using unresolvable_has_shell. Qed.

Lemma all_resolvable_has_shell :
  Forall (resolvable env) dependencies → shell_available env = true.
Proof.
  intros H. apply Forall_inv in H. by apply resolvable_has_shell in H.
Qed.

Lemma ensure_output_dir_world w :
  ensurable w →
  ensure_output_dir w =
  (Ok tt, {| fs := ensure_fs (fs w); cwd_writable := cwd_writable w;
             log := log w ++ ensure_events (fs w) |}).
Proof.
  intros Hens. rewrite ensure_output_dir_eq. unfold ensure_fs, ensure_events.
  destruct Hens as [E|[E|[E Hw]]]; rewrite E; [| |by rewrite Hw];
    destruct w as [f c l]; simpl; by rewrite app_nil_r.
Qed.

Lemma ensure_output_dir_fails w :
  ¬ ensurable w → ensure_output_dir w = (Raise (ensure_error w), w).
Proof.
  intros Hnot. rewrite ensure_output_dir_eq. unfold ensure_error.
  unfold ensurable in Hnot.
  destruct (fs w !! output_dir) as [[| |]|].
  - exfalso. apply Hnot. by left.
  - exfalso. apply Hnot. right. by left.
  - reflexivity.
  - destruct (cwd_writable w); [|reflexivity].
    exfalso. apply Hnot. right. by right.
Qed.

Lemma before_build_through_echo f :
  before_build env f = through_echo env ++ ensure_events f.
Proof. unfold before_build, through_echo. by rewrite <- !app_assoc. Qed.

(** [main] on a host where some dependency is missing. *)
Lemma main_missing w :
  shell_available env = true →
  filter (unresolvable env) dependencies ≠ [] →
  main env w =
  (Ok tt,
   emits (probes dependencies ++
          [missing_line (filter (unresolvable env) dependencies);
           remediation_line]) w).
Proof.
  intros Hsh Hmiss. unfold main.
  erewrite bind_ok; [|by apply checkDeps_on_eq].
  rewrite bool_decide_eq_false_2 by done. cbn [negb].
  erewrite bind_ok; [|apply print_eq].
  unfold mret, M_ret. rewrite emits_emits.
  destruct (filter (unresolvable env) dependencies); [done|].
  cbn [checkDeps_report]. by rewrite <- app_assoc.
Qed.

(** [main] on a host where every dependency is present, up to the end
    of the echo step. *)
Lemma main_to_echo w :
  shell_available env = true →
  filter (unresolvable env) dependencies = [] →
  main env w =
  match outcome (completed (sh env echo_command)) with
  | Ok _ =>
      (ensure_output_dir;;
       run_command env build_command;;
       print "Build completed successfully.") (emits (through_echo env) w)
  | Raise e => (Raise e, emits (through_echo env) w)
  end.
Proof.
  intros Hsh Hnone. unfold main.
  erewrite bind_ok; [|by apply checkDeps_on_eq].
  rewrite Hnone, bool_decide_eq_true_2 by done. cbn [negb checkDeps_report].
  erewrite bind_ok; [|apply print_eq].
  erewrite bind_ok; [|apply print_eq].
  rewrite !emits_emits.
  pose proof (run_command_eq env echo_command _
                (emits ((probes dependencies ++ []) ++
                        [line "All dependencies are satisfied."] ++
                        [line "Building the project..."]) w)
                (spawn_result_shell env echo_command Hsh)) as Hecho.
  rewrite emits_emits in Hecho.
  assert (((probes dependencies ++ []) ++
           [line "All dependencies are satisfied."] ++
           [line "Building the project..."]) ++
          EvPopen echo_command ::
          report echo_command (completed (sh env echo_command)) =
          through_echo env) as Hlog.
  { unfold through_echo. rewrite app_nil_r, <- !app_assoc. reflexivity. }
  rewrite Hlog in Hecho.
  destruct (outcome (completed (sh env echo_command))) as [[]|e].
  - by erewrite bind_ok.
  - by erewrite bind_raise.
Qed.

(** ... and up to the creation of the build process. *)
Lemma main_to_build w :
  shell_available env = true →
  filter (unresolvable env) dependencies = [] →
  well_formed (printed (completed (sh env echo_command))) →
  ensurable w →
  main env w =
  (run_command env build_command;;
   print "Build completed successfully.")
    {| fs := ensure_fs (fs w); cwd_writable := cwd_writable w;
       log := log w ++ before_build env (fs w) |}.
Proof.
  intros Hsh Hnone Hecho Hens.
  rewrite main_to_echo, outcome_well_formed by done.
  erewrite bind_ok; [|by apply ensure_output_dir_world].
  rewrite before_build_through_echo. cbn [fs cwd_writable log emits].
  by rewrite app_assoc.
Qed.

(** [main] on a host where every dependency is present and nothing
    raises. *)
Lemma main_complete w :
  shell_available env = true →
  filter (unresolvable env) dependencies = [] →
  well_formed (printed (completed (sh env echo_command))) →
  ensurable w →
  well_formed (printed (completed (sh env build_command))) →
  main env w =
  (Ok tt,
   {| fs := ensure_fs (fs w);
      cwd_writable := cwd_writable w;
      log := log w ++ before_build env (fs w) ++
             [EvPopen build_command] ++
             report build_command (completed (sh env build_command)) ++
             [success_line] |}).
Proof.
  intros Hsh Hnone Hecho Hens Hbuild. rewrite main_to_build by done.
  erewrite bind_ok;
    [|rewrite (run_command_eq env build_command _ _
                 (spawn_result_shell env build_command Hsh)),
        outcome_well_formed by done; reflexivity].
  rewrite print_eq. unfold emits, success_line. cbn [fs cwd_writable log].
  f_equal. f_equal. rewrite <- !app_assoc. reflexivity.
Qed.

(** [main] when the output of the build step does not decode. *)
Lemma main_build_undecodable w :
  shell_available env = true →
  filter (unresolvable env) dependencies = [] →
  well_formed (printed (completed (sh env echo_command))) →
  ensurable w →
  printed (completed (sh env build_command)) = Undecodable →
  main env w =
  (Raise UnicodeDecodeError,
   {| fs := ensure_fs (fs w);
      cwd_writable := cwd_writable w;
      log := log w ++ before_build env (fs w) ++
             [EvPopen build_command] ++
             report build_command (completed (sh env build_command)) |}).
Proof.
  intros Hsh Hnone Hecho Hens Hbuild. rewrite main_to_build by done.
  erewrite bind_raise;
    [|rewrite (run_command_eq env build_command _ _
                 (spawn_result_shell env build_command Hsh)),
        outcome_undecodable by done; reflexivity].
  unfold emits. cbn [fs cwd_writable log].
  f_equal. f_equal. rewrite <- !app_assoc. reflexivity.
Qed.

(** [main] when the directory-ensure step raises. *)
Lemma main_ensure_fails w :
  shell_available env = true →
  filter (unresolvable env) dependencies = [] →
  well_formed (printed (completed (sh env echo_command))) →
  ¬ ensurable w →
  main env w = (Raise (ensure_error w), emits (through_echo env) w).
Proof.
  intros Hsh Hnone Hecho Hens.
  rewrite main_to_echo, outcome_well_formed by done.
  erewrite bind_raise; [reflexivity|].
  by rewrite ensure_output_dir_fails.
Qed.

Lemma main_no_shell w :
  shell_available env = false →
  main env w =
  (Raise (OSError "which figlet"), emits [EvPopen "which figlet"] w).
Proof.
  intros Hsh. unfold main.
  erewrite bind_raise; [reflexivity|]. unfold checkDeps, checkDeps_on.
  erewrite bind_raise; [reflexivity|]. unfold dependencies. cbn [for_dep].
  erewrite bind_raise; [reflexivity|].
  by apply subprocess_call_no_shell.
Qed.

End MainEquations.

(** ** Reading the events a computation adds *)

Lemma added_emits {A} (m : M A) w es :
  (m w).2 = emits es w → added m w = es.
Proof.
  intros E. unfold added. rewrite E, log_emits. by rewrite drop_app_length.
Qed.

Lemma added_log {A} (m : M A) w es :
  log (m w).2 = log w ++ es → added m w = es.
Proof. intros E. unfold added. rewrite E. by rewrite drop_app_length. Qed.

Lemma added_of_world {A} (m : M A) w r f c es :
  m w = (r, {| fs := f; cwd_writable := c; log := log w ++ es |}) →
  added m w = es.
Proof. intros E. apply added_log. by rewrite E. Qed.

Lemma popens_probes deps : popens (probes deps) = map probe_command deps.
Proof. induction deps as [|dep rest IH]; [done|]. simpl. by f_equal. Qed.

Lemma written_probes s deps : written s (probes deps) = [].
Proof. by induction deps. Qed.

Lemma popens_app es1 es2 : popens (es1 ++ es2) = popens es1 ++ popens es2.
Proof. unfold popens. apply omap_app. Qed.

Lemma written_app s es1 es2 :
  written s (es1 ++ es2) = written s es1 ++ written s es2.
Proof. unfold written. apply omap_app. Qed.

Lemma popens_checkDeps_report missing : popens (checkDeps_report missing) = [].
Proof. by destruct missing. Qed.

Lemma none_missing_iff env (deps : list string) :
  filter (unresolvable env) deps = [] ↔
  ∀ dep, dep ∈ deps → ¬ unresolvable env dep.
Proof.
  split.
  - intros E dep Hin Hun. by eapply filter_nil_not_elem_of.
  - intros H. induction deps as [|dep rest IH]; [done|].
    rewrite filter_cons_False by (apply H; left).
    apply IH. intros d Hd. apply H. by right.
Qed.

Lemma string_app_assoc (a b c : string) : (a +:+ b) +:+ c = a +:+ b +:+ c.
Proof.
  induction a as [|ch a IH]; [reflexivity|].
  change (String ch ((a +:+ b) +:+ c) = String ch (a +:+ b +:+ c)).
  by rewrite IH.
Qed.

Lemma popens_shown c : popens (shown c) = [].
Proof. by destruct c. Qed.

Lemma popens_report command r : popens (report command r) = [].
Proof.
  destruct r as [[rc out] err]. unfold report.
  destruct (negb (rc =? 0)%Z); [cbn [popens omap]|]; apply popens_shown.
Qed.

Lemma no_makedirs_report command r :
  Forall (λ e, is_makedirs e = false) (report command r).
Proof.
  destruct r as [[rc out] err]. unfold report.
  destruct (negb (rc =? 0)%Z); [destruct err|destruct out];
    repeat constructor.
Qed.

Lemma no_makedirs_probes deps :
  Forall (λ e, is_makedirs e = false) (probes deps).
Proof. induction deps; by constructor. Qed.

Lemma popens_ensure_events f : popens (ensure_events f) = [].
Proof. unfold ensure_events. by destruct (f !! output_dir). Qed.

Lemma popens_through_echo env :
  popens (through_echo env) = map probe_command dependencies ++ [echo_command].
Proof.
  unfold through_echo.
  rewrite !popens_app, popens_probes, popens_report. reflexivity.
Qed.

Lemma no_makedirs_through_echo env :
  Forall (λ e, is_makedirs e = false) (through_echo env).
Proof.
  unfold through_echo. rewrite !Forall_app. repeat split;
    auto using no_makedirs_probes, no_makedirs_report; by repeat constructor.
Qed.

(** ** The dependency checker *)

(** C1. Over any list of tool names, on a host whose shell starts,
    [checkDeps] returns [True] exactly when no name of the list is
    unresolvable, and the list of missing names it builds (and prints
    when it is not empty) consists of exactly the unresolvable names, in
    the order of the input list. *)
Theorem checkDeps_missing_exact env (deps : list string) w :
  shell_available env = true →
  ∃ ok : bool,
    (checkDeps_on env deps w).1 = Ok ok ∧
    (ok = true ↔ ∀ dep, dep ∈ deps → ¬ unresolvable env dep) ∧
    (for_dep env deps [] w).1 = Ok (filter (unresolvable env) deps) ∧
    added (checkDeps_on env deps) w =
      probes deps ++ checkDeps_report (filter (unresolvable env) deps).
Proof.
  intros Hsh. exists (bool_decide (filter (unresolvable env) deps = [])).
  rewrite checkDeps_on_eq, for_dep_eq by done. repeat split.
  - intros Hok. apply none_missing_iff. by apply bool_decide_eq_true in Hok.
  - intros Hnone. apply bool_decide_eq_true, none_missing_iff, Hnone.
  - apply added_emits. by rewrite checkDeps_on_eq.
Qed.

Lemma checkDeps_missing_exact_witness :
  shell_available (host ["argc"; "mosh"] (Ran 0 "" "")) = true ∧
  ∃ ok : bool,
    (checkDeps_on (host ["argc"; "mosh"] (Ran 0 "" "")) dependencies
       empty_world).1 = Ok ok ∧
    (ok = true ↔
     ∀ dep, dep ∈ dependencies →
            ¬ unresolvable (host ["argc"; "mosh"] (Ran 0 "" "")) dep) ∧
    (for_dep (host ["argc"; "mosh"] (Ran 0 "" "")) dependencies []
       empty_world).1 =
      Ok (filter (unresolvable (host ["argc"; "mosh"] (Ran 0 "" "")))
            dependencies) ∧
    added (checkDeps_on (host ["argc"; "mosh"] (Ran 0 "" "")) dependencies)
      empty_world =
      probes dependencies ++
      checkDeps_report
        (filter (unresolvable (host ["argc"; "mosh"] (Ran 0 "" "")))
           dependencies).
Proof.
  split; [reflexivity|].
  apply (checkDeps_missing_exact (host ["argc"; "mosh"] (Ran 0 "" ""))
           dependencies empty_world).
  reflexivity.
Defined.

(** C9. The list [checkDeps] checks is the fixed sequence figlet, argc,
    wget, curl, telnet, ssh, mosh, bash, and on a host whose shell
    starts the processes it creates are the probes of these names, in
    this order. *)
Theorem checkDeps_probes_fixed_list env w :
  shell_available env = true →
  dependencies =
    ["figlet"; "argc"; "wget"; "curl"; "telnet"; "ssh"; "mosh"; "bash"] ∧
  popens (added (checkDeps env) w) =
    ["which figlet"; "which argc"; "which wget"; "which curl";
     "which telnet"; "which ssh"; "which mosh"; "which bash"].
Proof.
  intros Hsh. split; [reflexivity|].
  unfold checkDeps. erewrite added_emits by by rewrite checkDeps_on_eq.
  rewrite popens_app, popens_probes, popens_checkDeps_report.
  reflexivity.
Qed.

Lemma checkDeps_probes_fixed_list_witness :
  shell_available (host ["wget"] (Ran 0 "" "")) = true ∧
  dependencies =
    ["figlet"; "argc"; "wget"; "curl"; "telnet"; "ssh"; "mosh"; "bash"] ∧
  popens (added (checkDeps (host ["wget"] (Ran 0 "" ""))) empty_world) =
    ["which figlet"; "which argc"; "which wget"; "which curl";
     "which telnet"; "which ssh"; "which mosh"; "which bash"].
Proof.
  split; [reflexivity|].
  apply (checkDeps_probes_fixed_list (host ["wget"] (Ran 0 "" ""))
           empty_world).
  reflexivity.
Defined.

(** ** The command runner *)




(** ** The orchestration *)

Lemma all_resolvable_with_build env build :
  Forall (resolvable env) dependencies →
  Forall (resolvable (with_build env build)) dependencies.
Proof.
  intros H. eapply Forall_impl; [exact H|]. intros dep Hdep. exact Hdep.
Qed.

Lemma main_with_build env build w :
  Forall (resolvable env) dependencies →
  well_formed (printed (completed (sh env echo_command))) →
  ensurable w →
  well_formed (printed (completed build)) →
  main (with_build env build) w =
  (Ok tt,
   {| fs := ensure_fs (fs w);
      cwd_writable := cwd_writable w;
      log := log w ++ before_build env (fs w) ++
             [EvPopen build_command] ++
             report build_command (completed build) ++
             [success_line] |}).
Proof.
  intros Hall Hecho Hens Hbuild.
  apply (all_resolvable_with_build env build) in Hall.
  rewrite main_complete.
  - reflexivity.
  - by apply all_resolvable_has_shell.
  - by apply all_resolvable_none_missing.
  - exact Hecho.
  - exact Hens.
  - exact Hbuild.
Qed.

(** C2. Whenever some required dependency is unresolvable, [main]
    prints the missing names and the remediation message and returns:
    the working directory is untouched, no directory is created, and no
    process other than the probes is created. *)
Theorem main_aborts_on_missing_dependency env w :
  Exists (unresolvable env) dependencies →
  main env w =
    (Ok tt,
     emits (probes dependencies ++
            [missing_line (filter (unresolvable env) dependencies);
             remediation_line]) w) ∧
  fs (main env w).2 = fs w ∧
  popens (added (main env) w) = map probe_command dependencies ∧
  Forall (λ e, is_makedirs e = false ∧
               is_popen_of build_command e = false ∧
               is_popen_of echo_command e = false)
         (added (main env) w).
Proof.
  intros Hex.
  pose proof (exists_unresolvable_has_shell env _ Hex) as Hsh.
  pose proof (some_unresolvable_missing env _ Hex) as Hmiss.
  pose proof (main_missing env w Hsh Hmiss) as Hmain.
  split; [exact Hmain|].
  rewrite (added_emits (main env) w _ (f_equal snd Hmain)), Hmain.
  split; [reflexivity|]. split.
  - rewrite popens_app, popens_probes. simpl. reflexivity.
  - apply Forall_app. split; repeat constructor.
Qed.

Lemma main_aborts_on_missing_dependency_witness :
  Exists (unresolvable (host ["telnet"] (Ran 0 "" ""))) dependencies ∧
  main (host ["telnet"] (Ran 0 "" "")) empty_world =
    (Ok tt,
     emits (probes dependencies ++
            [missing_line
               (filter (unresolvable (host ["telnet"] (Ran 0 "" "")))
                  dependencies);
             remediation_line]) empty_world) ∧
  fs (main (host ["telnet"] (Ran 0 "" "")) empty_world).2 = fs empty_world ∧
  popens (added (main (host ["telnet"] (Ran 0 "" ""))) empty_world) =
    map probe_command dependencies ∧
  Forall (λ e, is_makedirs e = false ∧
               is_popen_of build_command e = false ∧
               is_popen_of echo_command e = false)
         (added (main (host ["telnet"] (Ran 0 "" ""))) empty_world).
Proof.
  assert (Exists (unresolvable (host ["telnet"] (Ran 0 "" ""))) dependencies)
    as Hmissing.
  { unfold dependencies. do 4 apply Exists_cons_tl. apply Exists_cons_hd.
    vm_compute. discriminate. }
  split; [exact Hmissing|].
  apply (main_aborts_on_missing_dependency (host ["telnet"] (Ran 0 "" ""))
           empty_world Hmissing).
Defined.







(** ** The exit status *)


Lemma script_status env w :
  stdout_accepts env = true →
  (script env w).1 = match (main env w).1 with Ok _ => 0%Z | Raise _ => 1%Z end.
Proof.
  intros Hacc. unfold script. destruct (main env w) as [r w'].
  destruct (written Stdout (added (main env) w)); [reflexivity|].
  by rewrite Hacc.
Qed.



(** ** Kinds of failure of the command runner *)




(** ** The directory-ensure step *)

(** Where the step can return it does, and a second run changes
    nothing. *)
Lemma ensure_output_dir_returns w :
  ensurable w →
  ∃ w1, ensure_output_dir w = (Ok tt, w1) ∧ ensure_output_dir w1 = (Ok tt, w1).
Proof.
  intros Hens. rewrite ensure_output_dir_eq.
  destruct Hens as [E|[E|[E Hw]]]; rewrite E; [| |rewrite Hw];
    eexists; (split; [reflexivity|]); rewrite ensure_output_dir_eq; simpl.
  - by rewrite E.
  - by rewrite E.
  - by rewrite lookup_insert_eq.
Qed.

(** C7 fails when [dist] is a regular file: two runs succeed and there is
    still no directory at the output path. *)
Lemma ensure_twice_over_regular_file :
  ¬ leaves_output_directory world_with_dist_file.
Proof. intros [w' [Hrun Hdir]]. vm_compute in Hrun. by injection Hrun as <-. Qed.

(** C7, as the script behaves. From every working directory in which
    [dist] is already a directory, or is absent while the directory
    takes a new entry, the directory-ensure step returns without
    raising and leaves a directory at [dist]; when the directory was
    already there nothing changes; a second run in succession also
    returns without raising and changes nothing; no other entry of the
    working directory is touched. *)
Theorem ensure_output_dir_idempotent w :
  fs w !! output_dir = Some Dir ∨
  (fs w !! output_dir = None ∧ cwd_writable w = true) →
  ∃ w1,
    ensure_output_dir w = (Ok tt, w1) ∧
    ensure_output_dir w1 = (Ok tt, w1) ∧
    (ensure_output_dir ;; ensure_output_dir) w = (Ok tt, w1) ∧
    fs w1 !! output_dir = Some Dir ∧
    (fs w !! output_dir = Some Dir → w1 = w) ∧
    (∀ path, path ≠ output_dir → fs w1 !! path = fs w !! path).
Proof.
  intros Hstate.
  assert (ensurable w) as Hens by (unfold ensurable; tauto).
  destruct (ensure_output_dir_returns w Hens) as [w1 [H1 H2]].
  exists w1. split; [exact H1|]. split; [exact H2|].
  split; [by erewrite bind_ok|].
  rewrite ensure_output_dir_eq in H1.
  destruct Hstate as [E|[E Hw]]; rewrite E in H1; [|rewrite Hw in H1];
    injection H1 as <-.
  - by repeat split.
  - simpl. repeat split.
    + by rewrite lookup_insert_eq.
    + intros Hdir. by rewrite E in Hdir.
    + intros path Hpath. by rewrite lookup_insert_ne.
Qed.

Lemma ensure_output_dir_idempotent_witness :
  (fs empty_world !! output_dir = Some Dir ∨
   (fs empty_world !! output_dir = None ∧ cwd_writable empty_world = true)) ∧
  ∃ w1,
    ensure_output_dir empty_world = (Ok tt, w1) ∧
    ensure_output_dir w1 = (Ok tt, w1) ∧
    (ensure_output_dir ;; ensure_output_dir) empty_world = (Ok tt, w1) ∧
    fs w1 !! output_dir = Some Dir ∧
    (fs empty_world !! output_dir = Some Dir → w1 = empty_world) ∧
    (∀ path, path ≠ output_dir → fs w1 !! path = fs empty_world !! path).
Proof.
  assert (fs empty_world !! output_dir = Some Dir ∨
          (fs empty_world !! output_dir = None ∧
           cwd_writable empty_world = true)) as Hstate
    by (right; split; reflexivity).
  split; [exact Hstate|].
  apply (ensure_output_dir_idempotent empty_world Hstate).
Defined.

(** ** Effects of the dependency checker *)

(** C8 fails on a host without figlet: the checker itself prints the
    line of missing names on standard output. *)
Lemma checkDeps_prints_missing_line :
  ¬ silent (added (checkDeps (host ["figlet"] (Ran 0 "" ""))) empty_world).
Proof. intros [Hout _]. vm_compute in Hout. discriminate. Qed.

(** C8, as the script behaves. Over any list of names, on a host whose
    shell starts, the checker creates the probes and nothing else: it
    leaves the working directory as it was, creates no directory and
    writes nothing on standard error; on standard output it writes
    nothing when no name is missing and exactly one line, the missing
    names joined by a comma and a space, when some are. *)
Theorem checkDeps_effects env (deps : list string) w :
  shell_available env = true →
  fs (checkDeps_on env deps w).2 = fs w ∧
  popens (added (checkDeps_on env deps) w) = map probe_command deps ∧
  Forall (λ e, is_makedirs e = false) (added (checkDeps_on env deps) w) ∧
  written Stderr (added (checkDeps_on env deps) w) = [] ∧
  written Stdout (added (checkDeps_on env deps) w) =
    match filter (unresolvable env) deps with
    | [] => []
    | missing =>
        ["Missing dependencies: " +:+ join ", " missing +:+ newline]
    end.
Proof.
  intros Hsh.
  erewrite added_emits by by rewrite checkDeps_on_eq.
  rewrite checkDeps_on_eq by done. split; [reflexivity|].
  rewrite popens_app, popens_probes, popens_checkDeps_report, app_nil_r.
  split; [reflexivity|].
  rewrite !written_app, !written_probes. split; [|split].
  - apply Forall_app. split.
    + unfold probes. apply Forall_forall. intros e He.
      apply list_elem_of_fmap in He as [dep [-> _]]. reflexivity.
    + destruct (filter (unresolvable env) deps); repeat constructor.
  - by destruct (filter (unresolvable env) deps).
  - by destruct (filter (unresolvable env) deps).
Qed.

Lemma checkDeps_effects_witness :
  shell_available (host ["ssh"] (Ran 0 "" "")) = true ∧
  fs (checkDeps_on (host ["ssh"] (Ran 0 "" "")) dependencies empty_world).2 =
    fs empty_world ∧
  popens (added (checkDeps_on (host ["ssh"] (Ran 0 "" "")) dependencies)
            empty_world) = map probe_command dependencies ∧
  Forall (λ e, is_makedirs e = false)
    (added (checkDeps_on (host ["ssh"] (Ran 0 "" "")) dependencies)
       empty_world) ∧
  written Stderr
    (added (checkDeps_on (host ["ssh"] (Ran 0 "" "")) dependencies)
       empty_world) = [] ∧
  written Stdout
    (added (checkDeps_on (host ["ssh"] (Ran 0 "" "")) dependencies)
       empty_world) =
    match filter (unresolvable (host ["ssh"] (Ran 0 "" ""))) dependencies with
    | [] => []
    | missing =>
        ["Missing dependencies: " +:+ join ", " missing +:+ newline]
    end.
Proof.
  split; [reflexivity|].
  apply (checkDeps_effects (host ["ssh"] (Ran 0 "" "")) dependencies
           empty_world).
  reflexivity.
Defined.

(** * Further properties of the script *)

(** ** The checker without a shell *)

(** X1. On a host whose shell cannot be started, the checker over a
    non-empty list does not return: the probe of the first name raises
    [OSError], no further name is probed and nothing is printed. *)
Theorem checkDeps_on_stops_without_shell env dep (rest : list string) w :
  shell_available env = false →
  (checkDeps_on env (dep :: rest) w).1 = Raise (OSError (probe_command dep)) ∧
  added (checkDeps_on env (dep :: rest)) w = [EvPopen (probe_command dep)] ∧
  fs (checkDeps_on env (dep :: rest) w).2 = fs w.
Proof.
  intros Hsh. pose proof (checkDeps_on_no_shell env dep rest w Hsh) as E.
  change ("which " +:+ dep) with (probe_command dep) in E.
  split; [by rewrite E|]. split; [|by rewrite E].
  apply added_emits. by rewrite E.
Qed.

Lemma checkDeps_on_stops_without_shell_witness :
  shell_available no_shell = false ∧
  (checkDeps_on no_shell ("argc" :: ["wget"]) empty_world).1 =
    Raise (OSError (probe_command "argc")) ∧
  added (checkDeps_on no_shell ("argc" :: ["wget"])) empty_world =
    [EvPopen (probe_command "argc")] ∧
  fs (checkDeps_on no_shell ("argc" :: ["wget"]) empty_world).2 =
    fs empty_world.
Proof.
  split; [reflexivity|].
  apply (checkDeps_on_stops_without_shell no_shell "argc" ["wget"]
           empty_world).
  reflexivity.
Defined.

(** ** What the checker depends on *)

Lemma missing_same_statuses env1 env2 (deps : list string) :
  shell_available env1 = true →
  shell_available env2 = true →
  (∀ dep, dep ∈ deps →
     ((completed (sh env1 (probe_command dep))).1.1 =? 0)%Z =
     ((completed (sh env2 (probe_command dep))).1.1 =? 0)%Z) →
  filter (unresolvable env1) deps = filter (unresolvable env2) deps.
Proof.
  intros H1 H2 Hsame. induction deps as [|dep rest IH]; [done|].
  assert (unresolvable env1 dep ↔ unresolvable env2 dep) as Hiff.
  { rewrite !unresolvable_shell by done.
    rewrite <- !Z.eqb_neq. rewrite (Hsame dep) by left. done. }
  rewrite !filter_cons.
  destruct (decide (unresolvable env1 dep)) as [Hu|Hu],
           (decide (unresolvable env2 dep)) as [Hv|Hv]; try tauto;
    rewrite IH; try done; intros d Hd; apply Hsame; by right.
Qed.

(** X2. The checker looks at nothing but whether each probe exits
    with status zero: on two hosts whose shells start and whose probes
    run to completion and agree on that, it returns the same value and
    logs the same events; what the probes wrote is never read and no
    other command is run. *)
Theorem checkDeps_on_depends_on_statuses env1 env2 (deps : list string) w :
  shell_available env1 = true →
  shell_available env2 = true →
  (∀ dep, dep ∈ deps →
     ((completed (sh env1 (probe_command dep))).1.1 =? 0)%Z =
     ((completed (sh env2 (probe_command dep))).1.1 =? 0)%Z) →
  checkDeps_on env1 deps w = checkDeps_on env2 deps w.
Proof.
  intros H1 H2 Hsame. rewrite !checkDeps_on_eq by done.
  by rewrite (missing_same_statuses env1 env2 deps).
Qed.

Lemma checkDeps_on_depends_on_statuses_witness :
  shell_available (host ["curl"] (Ran 0 "" "")) = true ∧
  shell_available (with_build (host ["curl"] (Ran 3 "x" "y")) (Ran 9 "" ""))
    = true ∧
  (∀ dep, dep ∈ dependencies →
     ((completed (sh (host ["curl"] (Ran 0 "" ""))
                    (probe_command dep))).1.1 =? 0)%Z =
     ((completed (sh (with_build (host ["curl"] (Ran 3 "x" "y"))
                        (Ran 9 "" ""))
                    (probe_command dep))).1.1 =? 0)%Z) ∧
  checkDeps_on (host ["curl"] (Ran 0 "" "")) dependencies empty_world =
  checkDeps_on (with_build (host ["curl"] (Ran 3 "x" "y")) (Ran 9 "" ""))
    dependencies empty_world.
Proof.
  assert (∀ dep, dep ∈ dependencies →
     ((completed (sh (host ["curl"] (Ran 0 "" ""))
                    (probe_command dep))).1.1 =? 0)%Z =
     ((completed (sh (with_build (host ["curl"] (Ran 3 "x" "y"))
                        (Ran 9 "" ""))
                    (probe_command dep))).1.1 =? 0)%Z) as Hsame.
  { intros dep Hdep. unfold dependencies in Hdep.
    repeat (apply elem_of_cons in Hdep as [->|Hdep]; [reflexivity|]).
    by apply elem_of_nil in Hdep. }
  split; [reflexivity|]. split; [reflexivity|]. split; [exact Hsame|].
  apply (checkDeps_on_depends_on_statuses (host ["curl"] (Ran 0 "" ""))
           (with_build (host ["curl"] (Ran 3 "x" "y")) (Ran 9 "" ""))
           dependencies empty_world); [reflexivity|reflexivity|exact Hsame].
Defined.

Lemma all_unresolvable_missing env (deps : list string) :
  (∀ dep, dep ∈ deps → unresolvable env dep) →
  filter (unresolvable env) deps = deps.
Proof.
  intros Hall. induction deps as [|dep rest IH]; [done|].
  rewrite filter_cons_True by (apply Hall; left).
  f_equal. apply IH. intros d Hd. apply Hall. by right.
Qed.

(** X3. On a host whose shell starts but cannot find the executable of
    any probe (for instance because [which] itself is not installed),
    every name of a non-empty list is reported missing, in input order,
    and the checker returns [False]. *)
Theorem checkDeps_on_without_which env dep (rest : list string) w :
  shell_available env = true →
  (∀ d, d ∈ dep :: rest →
        ∃ diag, sh env (probe_command d) = CommandNotFound diag) →
  checkDeps_on env (dep :: rest) w =
    (Ok false,
     emits (probes (dep :: rest) ++ [missing_line (dep :: rest)]) w).
Proof.
  intros Hsh Hnf. rewrite checkDeps_on_eq by done.
  rewrite all_unresolvable_missing; [reflexivity|].
  intros d Hd. apply unresolvable_shell; [done|].
  destruct (Hnf d Hd) as [diag ->]. done.
Qed.

Lemma checkDeps_on_without_which_witness :
  shell_available host_without_which = true ∧
  (∀ d, d ∈ "ssh" :: ["bash"] →
        ∃ diag, sh host_without_which (probe_command d) =
                CommandNotFound diag) ∧
  checkDeps_on host_without_which ("ssh" :: ["bash"]) empty_world =
    (Ok false,
     emits (probes ("ssh" :: ["bash"]) ++ [missing_line ("ssh" :: ["bash"])])
       empty_world).
Proof.
  assert (∀ d, d ∈ "ssh" :: ["bash"] →
        ∃ diag, sh host_without_which (probe_command d) =
                CommandNotFound diag) as Hnf by (intros d _; by eexists).
  split; [reflexivity|]. split; [exact Hnf|].
  apply (checkDeps_on_without_which host_without_which "ssh" ["bash"]
           empty_world); [reflexivity|exact Hnf].
Defined.

(** X4. Checking a concatenated list is checking its parts one after
    the other: the loop over [l1 ++ l2] is the loop over [l1] followed
    by the loop over [l2] started from the names collected so far. This
    holds on every host, also when a probe raises half-way. *)
Theorem for_dep_app env (l1 l2 : list string) missing_deps w :
  for_dep env (l1 ++ l2) missing_deps w =
  (for_dep env l1 missing_deps ≫= for_dep env l2) w.
Proof.
  revert missing_deps w.
  induction l1 as [|dep rest IH]; intros acc w; [reflexivity|].
  cbn [app for_dep]. unfold mbind, M_bind.
  destruct (subprocess_call env ("which " +:+ dep) w) as [[rc|e] w1];
    [|reflexivity].
  destruct (negb (rc =? 0)%Z); apply IH.
Qed.

(** ** Effects of the command runner *)

Lemma written_stderr_shown c : written Stderr (shown c) = [].
Proof. by destruct c. Qed.

Lemma written_stderr_report command r : written Stderr (report command r) = [].
Proof.
  destruct r as [[rc out] err]. unfold report.
  destruct (negb (rc =? 0)%Z); [destruct err|destruct out]; reflexivity.
Qed.

(** X5. Whatever the host, and whether it returns or raises,
    [run_command] asks for exactly one process, the one for its command,
    and itself writes nothing on standard error: the failure report goes
    to standard output. *)
Theorem run_command_effects env command w :
  popens (added (run_command env command) w) = [command] ∧
  written Stderr (added (run_command env command) w) = [].
Proof.
  destruct (shell_available env) eqn:Hsh.
  - pose proof (run_command_eq env command _ w
                  (spawn_result_shell env command Hsh)) as E.
    rewrite (added_emits _ w _ (f_equal snd E)). split.
    + change (command :: popens (report command (completed (sh env command)))
              = [command]).
      by rewrite popens_report.
    + apply written_stderr_report.
  - pose proof (run_command_no_shell env command w Hsh) as E.
    rewrite (added_emits _ w _ (f_equal snd E)). by split.
Qed.



(** X12. When the stream [run_command] is to print does not decode, it
    raises [UnicodeDecodeError]: after a failed command the line naming
    the command has already been printed, after a successful one
    nothing has. *)
Theorem run_command_raises_undecodable
    env command w returncode stdout stderr :
  spawn_result env command = Ok (returncode, stdout, stderr) →
  printed (returncode, stdout, stderr) = Undecodable →
  run_command env command w =
    (Raise UnicodeDecodeError,
     emits (EvPopen command ::
            if negb (returncode =? 0)%Z
            then [line ("Error running command: " +:+ command)]
            else []) w).
Proof.
  intros E Hraw. rewrite (run_command_eq env command _ w E).
  rewrite outcome_undecodable by done.
  unfold printed in Hraw. unfold report.
  destruct (negb (returncode =? 0)%Z); by rewrite Hraw.
Qed.

Lemma run_command_raises_undecodable_witness :
  spawn_result (host [] (Ran 2 "" Undecodable)) build_command =
    Ok (2%Z, Text "", Undecodable) ∧
  printed (2%Z, Text "", Undecodable) = Undecodable ∧
  run_command (host [] (Ran 2 "" Undecodable)) build_command empty_world =
    (Raise UnicodeDecodeError,
     emits (EvPopen build_command ::
            if negb (2 =? 0)%Z
            then [line ("Error running command: " +:+ build_command)]
            else []) empty_world).
Proof.
  split; [reflexivity|]. split; [reflexivity|].
  apply (run_command_raises_undecodable (host [] (Ran 2 "" Undecodable))
           build_command empty_world 2 (Text "") Undecodable);
    reflexivity.
Defined.

(** ** Effects of [main] *)

Lemma logs_only_ret {A} P (a : A) : logs_only P (mret a : M A).
Proof. intros w. exists []. by rewrite app_nil_r. Qed.

Lemma logs_only_raise {A} P e : logs_only P (raise e : M A).
Proof. intros w. exists []. by rewrite app_nil_r. Qed.

Lemma logs_only_bind {A B} P (m : M A) (k : A → M B) :
  logs_only P m → (∀ a, logs_only P (k a)) → logs_only P (m ≫= k).
Proof.
  intros Hm Hk w. unfold mbind, M_bind.
  destruct (Hm w) as [es1 [E1 F1]].
  destruct (m w) as [[a|e] w1]; simpl in E1.
  - destruct (Hk a w1) as [es2 [E2 F2]]. exists (es1 ++ es2).
    rewrite E2, E1, app_assoc. split; [done|]. by apply Forall_app.
  - by exists es1.
Qed.

Lemma logs_only_print P text : P (line text) → logs_only P (print text).
Proof. intros H w. exists [line text]. split; [reflexivity|]. by constructor. Qed.

Lemma logs_only_popen P env command :
  P (EvPopen command) → logs_only P (Popen_communicate env command).
Proof.
  intros H w. exists [EvPopen command]. split; [reflexivity|].
  by constructor.
Qed.

Lemma logs_only_decode P c : logs_only P (decode c).
Proof. destruct c; [apply logs_only_ret|apply logs_only_raise]. Qed.

Lemma logs_only_ensure P :
  P (EvMakedirs output_dir) → logs_only P ensure_output_dir.
Proof.
  intros H w. rewrite ensure_output_dir_eq.
  destruct (fs w !! output_dir) as [[| |]|];
    try (exists []; by rewrite app_nil_r).
  destruct (cwd_writable w); [|exists []; by rewrite app_nil_r].
  exists [EvMakedirs output_dir]. split; [reflexivity|]. by constructor.
Qed.

Lemma run_command_quiet env command :
  logs_only not_on_stderr (run_command env command).
Proof.
  unfold run_command. apply logs_only_bind; [by apply logs_only_popen|].
  intros [[returncode stdout] stderr].
  destruct (negb (returncode =? 0)%Z);
    repeat (first [apply logs_only_decode
                  |by apply logs_only_print
                  |apply logs_only_bind; [|intros ?]]).
Qed.

Lemma for_dep_quiet env deps :
  ∀ missing_deps, logs_only not_on_stderr (for_dep env deps missing_deps).
Proof.
  induction deps as [|dep rest IH]; intros acc; [apply logs_only_ret|].
  cbn [for_dep]. apply logs_only_bind.
  - unfold subprocess_call. apply logs_only_bind;
      [by apply logs_only_popen|intros ?; apply logs_only_ret].
  - intros rc. destruct (negb (rc =? 0)%Z); apply IH.
Qed.

Lemma main_quiet env : logs_only not_on_stderr (main env).
Proof.
  unfold main. apply logs_only_bind.
  - unfold checkDeps, checkDeps_on. apply logs_only_bind;
      [apply for_dep_quiet|].
    intros [|m ms]; [apply logs_only_ret|].
    apply logs_only_bind; [by apply logs_only_print|].
    intros ?. apply logs_only_ret.
  - intros ok. destruct (negb ok).
    + apply logs_only_bind; [by apply logs_only_print|].
      intros ?. apply logs_only_ret.
    + repeat (first [apply run_command_quiet
                    |by apply logs_only_ensure
                    |by apply logs_only_print
                    |apply logs_only_bind; [|intros ?]]).
Qed.

Lemma written_stderr_quiet es :
  Forall not_on_stderr es → written Stderr es = [].
Proof.
  induction 1 as [|e es He _ IH]; [reflexivity|].
  destruct e as [c|[|] text|p]; simpl in *; done.
Qed.

(** X7. Whatever the host and the working directory, [main] writes
    nothing on standard error: the missing-dependency report and the
    report of a failed command both go to standard output. *)
Theorem main_never_writes_stderr env w :
  written Stderr (added (main env) w) = [].
Proof.
  destruct (main_quiet env w) as [es [E Hquiet]].
  rewrite (added_log _ w es E). by apply written_stderr_quiet.
Qed.



(** X9. When every dependency is resolvable, the printed stream of the
    echo step decodes and nothing sits at [dist] in a working directory
    that takes a new entry, [main] creates the directory exactly once,
    after the echo step and before the build process is created. *)
Theorem main_creates_absent_dist env w :
  Forall (resolvable env) dependencies →
  well_formed (printed (completed (sh env echo_command))) →
  fs w !! output_dir = None →
  cwd_writable w = true →
  ∃ before after,
    added (main env) w = before ++ [EvMakedirs output_dir] ++ after ∧
    popens before = map probe_command dependencies ++ [echo_command] ∧
    popens after = [build_command] ∧
    Forall (λ e, is_makedirs e = false) before ∧
    Forall (λ e, is_makedirs e = false) after.
Proof.
  intros Hall Hecho Hnone' Hw.
  pose proof (all_resolvable_has_shell env Hall) as Hsh.
  pose proof (all_resolvable_none_missing env _ Hall) as Hnone.
  assert (ensurable w) as Hens by (right; right; by split).
  exists (through_echo env).
  destruct (printed (completed (sh env build_command))) as [text|] eqn:Hb.
  - exists ([EvPopen build_command] ++
            report build_command (completed (sh env build_command)) ++
            [success_line]).
    assert (well_formed (printed (completed (sh env build_command))))
      as Hbuild by (by rewrite Hb).
    rewrite (added_of_world _ _ _ _ _ _
               (main_complete env w Hsh Hnone Hecho Hens Hbuild)).
    rewrite before_build_through_echo. unfold ensure_events. rewrite Hnone'.
    split; [by rewrite <- !app_assoc|].
    split; [apply popens_through_echo|]. split; [|split].
    + rewrite !popens_app, popens_report. reflexivity.
    + apply no_makedirs_through_echo.
    + rewrite !Forall_app. repeat split;
        auto using no_makedirs_report; by repeat constructor.
  - exists ([EvPopen build_command] ++
            report build_command (completed (sh env build_command))).
    rewrite (added_of_world _ _ _ _ _ _
               (main_build_undecodable env w Hsh Hnone Hecho Hens Hb)).
    rewrite before_build_through_echo. unfold ensure_events. rewrite Hnone'.
    split; [by rewrite <- !app_assoc|].
    split; [apply popens_through_echo|]. split; [|split].
    + rewrite !popens_app, popens_report. reflexivity.
    + apply no_makedirs_through_echo.
    + rewrite !Forall_app. repeat split;
        auto using no_makedirs_report; by repeat constructor.
Qed.

Lemma main_creates_absent_dist_witness :
  Forall (resolvable (host [] (Ran 2 "" "boom"))) dependencies ∧
  well_formed
    (printed (completed (sh (host [] (Ran 2 "" "boom")) echo_command))) ∧
  fs empty_world !! output_dir = None ∧
  cwd_writable empty_world = true ∧
  ∃ before after,
    added (main (host [] (Ran 2 "" "boom"))) empty_world =
      before ++ [EvMakedirs output_dir] ++ after ∧
    popens before = map probe_command dependencies ++ [echo_command] ∧
    popens after = [build_command] ∧
    Forall (λ e, is_makedirs e = false) before ∧
    Forall (λ e, is_makedirs e = false) after.
Proof.
  assert (Forall (resolvable (host [] (Ran 2 "" "boom"))) dependencies)
    as Hall by (unfold dependencies; repeat constructor).
  assert (well_formed
            (printed (completed (sh (host [] (Ran 2 "" "boom"))
                                   echo_command))))
    as Hecho by (vm_compute; discriminate).
  split; [exact Hall|]. split; [exact Hecho|]. split; [reflexivity|].
  split; [reflexivity|].
  apply (main_creates_absent_dist (host [] (Ran 2 "" "boom")) empty_world
           Hall Hecho); reflexivity.
Defined.



(** X14. When every dependency is resolvable, the echo step and the
    directory-ensure step go through, and the stream [run_command] is to
    print for the build does not decode, [UnicodeDecodeError] escapes
    [main] after the build process was created, and the run does not end
    with the success line. *)
Theorem main_stops_on_undecodable_build env w :
  Forall (resolvable env) dependencies →
  well_formed (printed (completed (sh env echo_command))) →
  ensurable w →
  printed (completed (sh env build_command)) = Undecodable →
  (main env w).1 = Raise UnicodeDecodeError ∧
  popens (added (main env) w) =
    map probe_command dependencies ++ [echo_command; build_command] ∧
  last (added (main env) w) ≠ Some success_line.
Proof.
  intros Hall Hecho Hens Hraw.
  pose proof (main_build_undecodable env w (all_resolvable_has_shell env Hall)
                (all_resolvable_none_missing env _ Hall) Hecho Hens Hraw)
    as Hmain.
  rewrite (added_of_world _ _ _ _ _ _ Hmain), Hmain.
  split; [reflexivity|]. split.
  - rewrite before_build_through_echo.
    rewrite !popens_app, popens_through_echo, popens_ensure_events,
      popens_report.
    cbn [popens omap app]. by rewrite app_nil_r, <- app_assoc.
  - destruct (completed (sh env build_command)) as [[rc out] err].
    unfold printed in Hraw. unfold report.
    destruct (negb (rc =? 0)%Z); rewrite Hraw; cbn [shown].
    + rewrite (app_assoc _ [_] [_]), last_snoc. discriminate.
    + rewrite app_nil_r, last_snoc. discriminate.
Qed.

Lemma main_stops_on_undecodable_build_witness :
  Forall (resolvable (host [] (Ran 0 Undecodable ""))) dependencies ∧
  well_formed
    (printed (completed (sh (host [] (Ran 0 Undecodable "")) echo_command))) ∧
  ensurable empty_world ∧
  printed (completed (sh (host [] (Ran 0 Undecodable "")) build_command)) =
    Undecodable ∧
  (main (host [] (Ran 0 Undecodable "")) empty_world).1 =
    Raise UnicodeDecodeError ∧
  popens (added (main (host [] (Ran 0 Undecodable ""))) empty_world) =
    map probe_command dependencies ++ [echo_command; build_command] ∧
  last (added (main (host [] (Ran 0 Undecodable ""))) empty_world) ≠
    Some success_line.
Proof.
  assert (Forall (resolvable (host [] (Ran 0 Undecodable ""))) dependencies)
    as Hall by (unfold dependencies; repeat constructor).
  assert (well_formed
            (printed (completed (sh (host [] (Ran 0 Undecodable ""))
                                   echo_command))))
    as Hecho by (vm_compute; discriminate).
  assert (ensurable empty_world) as Hens
    by (right; right; split; reflexivity).
  split; [exact Hall|]. split; [exact Hecho|]. split; [exact Hens|].
  split; [reflexivity|].
  apply (main_stops_on_undecodable_build (host [] (Ran 0 Undecodable ""))
           empty_world Hall Hecho Hens).
  reflexivity.
Defined.
